(** * Platform settings (lib/platform.h)

    A shallow embedding of the [Platform] class of Cppcheck: the bounds of an
    N-bit two's-complement integer ([min_value], [max_value],
    [max_value_unsigned]), the range queries built on them, the platform type
    tag with [isWindows] and [toString], and the char limits.

    Fixed-width C++ integers are values of [Z] with the wrap-around of every
    conversion written out.  A call that trips [assert] or throws has no
    value: it is an [outcome] other than [Ret]. *)

From Stdlib Require Import ZArith Bool List String Ascii Lia.
Import ListNotations.

Local Open Scope string_scope.
Local Open Scope Z_scope.

(** ** Outcomes of a call *)

(** What a call of a member function ends in: a returned value, a failed
    [assert] (with NDEBUG the shift that follows has a negative count, which
    is undefined, so there is no value either way), or a thrown
    [std::runtime_error] carrying its [what()] text. *)
Inductive outcome (A : Type) : Type :=
| Ret (a : A)
| AssertFail
| Throw (what : string).

Arguments Ret {A} a.
Arguments AssertFail {A}.
Arguments Throw {A} what.

Definition bind {A B : Type} (m : outcome A) (k : A -> outcome B) : outcome B :=
  match m with
  | Ret a => k a
  | AssertFail => AssertFail
  | Throw w => Throw w
  end.

Notation "x <- m ;; k" := (bind m (fun x => k))
  (at level 61, m at next level, right associativity).

(** [assert(c)] from <cassert>. *)
Definition assert (c : bool) : outcome unit :=
  if c then Ret tt else AssertFail.

(** ** Fixed-width integers *)

Module Int.

(** Conversion to [std::uint8_t]. *)
Definition to_u8 (z : Z) : Z := z mod 2 ^ 8.

(** Conversion to [unsigned long long] (64 bits). *)
Definition to_u64 (z : Z) : Z := z mod 2 ^ 64.

(** Conversion to [long long] (64 bits, two's complement). *)
Definition to_s64 (z : Z) : Z := (z + 2 ^ 63) mod 2 ^ 64 - 2 ^ 63.

(** <climits> *)
Definition LLONG_MIN : Z := - 2 ^ 63.
Definition LLONG_MAX : Z := 2 ^ 63 - 1.
Definition ULLONG_MAX : Z := 2 ^ 64 - 1.

Definition is_u8 (z : Z) : Prop := 0 <= z < 2 ^ 8.
Definition is_u64 (z : Z) : Prop := 0 <= z <= ULLONG_MAX.
Definition is_s64 (z : Z) : Prop := LLONG_MIN <= z <= LLONG_MAX.

(** [a << n] on [long long]. *)
Definition shl_s64 (a n : Z) : Z := to_s64 (Z.shiftl a n).

(** [a << n] and [a >> n] on [unsigned long long]. *)
Definition shl_u64 (a n : Z) : Z := to_u64 (Z.shiftl a n).
Definition shr_u64 (a n : Z) : Z := Z.shiftr a n.

(** Unary minus and subtraction on [long long]. *)
Definition neg_s64 (a : Z) : Z := to_s64 (- a).
Definition sub_s64 (a b : Z) : Z := to_s64 (a - b).

(** Subtraction on [unsigned long long]. *)
Definition sub_u64 (a b : Z) : Z := to_u64 (a - b).

(** [~0ULL] *)
Definition not0_u64 : Z := to_u64 (Z.lnot 0).

End Int.

(** ** Bounds of an N-bit integer *)

(** [static long long min_value(std::uint8_t bit)] *)
Definition min_value (bit : Z) : outcome Z :=
  _ <- assert (bit >? 0) ;;
  if bit >=? 64 then Ret Int.LLONG_MIN
  else Ret (Int.neg_s64 (Int.shl_s64 1 (bit - 1))).

(** [static long long max_value(std::uint8_t bit)] *)
Definition max_value (bit : Z) : outcome Z :=
  _ <- assert (bit >? 0) ;;
  if bit >=? 64 then Ret (Int.to_s64 (Int.shr_u64 Int.not0_u64 1))
  else Ret (Int.sub_s64 (Int.shl_s64 1 (bit - 1)) 1).

(** [static unsigned long long max_value_unsigned(std::uint8_t bit)] *)
Definition max_value_unsigned (bit : Z) : outcome Z :=
  _ <- assert (bit >? 0) ;;
  if bit >=? 64 then Ret Int.not0_u64
  else Ret (Int.sub_u64 (Int.shl_u64 1 bit) 1).

(** ** The platform type tag *)

(** [enum Type : std::uint8_t].  The enumerators, in declaration order. *)
Inductive Type_ : Set :=
| Unspecified
| Native
| Win32A
| Win32W
| Win64
| Unix32
| Unix64
| File.

Module PlatformType.

(** The value of an enumerator. *)
Definition to_u8 (t : Type_) : Z :=
  match t with
  | Unspecified => 0
  | Native => 1
  | Win32A => 2
  | Win32W => 3
  | Win64 => 4
  | Unix32 => 5
  | Unix64 => 6
  | File => 7
  end.

(** The enumerator of a value, if it has one.  The underlying type is fixed,
    so an object of the enumeration can hold any [std::uint8_t]. *)
Definition of_u8 (v : Z) : option Type_ :=
  match v with
  | 0 => Some Unspecified
  | 1 => Some Native
  | 2 => Some Win32A
  | 3 => Some Win32W
  | 4 => Some Win64
  | 5 => Some Unix32
  | 6 => Some Unix64
  | 7 => Some File
  | _ => None
  end.

End PlatformType.

(** ** The descriptor *)

(** The data members of [class Platform].  Widths are [std::uint8_t], sizes
    [std::size_t], [defaultSign] a [char], and [type] the stored value of the
    enumeration. *)
Record Platform : Set := mkPlatform {
  char_bit : Z;
  short_bit : Z;
  int_bit : Z;
  long_bit : Z;
  long_long_bit : Z;
  sizeof_bool : Z;
  sizeof_short : Z;
  sizeof_int : Z;
  sizeof_long : Z;
  sizeof_long_long : Z;
  sizeof_float : Z;
  sizeof_double : Z;
  sizeof_long_double : Z;
  sizeof_wchar_t : Z;
  sizeof_size_t : Z;
  sizeof_pointer : Z;
  defaultSign : ascii;
  type : Z
}.

(** The widths fit their type. *)
Record widths_fit (p : Platform) : Prop := {
  char_bit_fits : Int.is_u8 (char_bit p);
  short_bit_fits : Int.is_u8 (short_bit p);
  int_bit_fits : Int.is_u8 (int_bit p);
  long_bit_fits : Int.is_u8 (long_bit p);
  long_long_bit_fits : Int.is_u8 (long_long_bit p)
}.

(** ** Range queries *)

(** [bool isIntValue(MathLib::bigint value) const]; [&&] evaluates its right
    operand only when the left one holds. *)
Definition isIntValue (p : Platform) (value : Z) : outcome bool :=
  lo <- min_value (int_bit p) ;;
  if value >=? lo then
    hi <- max_value (int_bit p) ;;
    Ret (value <=? hi)
  else Ret false.

(** [bool isIntValue(MathLib::biguint value) const] *)
Definition isIntValue_u (p : Platform) (value : Z) : outcome bool :=
  m <- max_value (int_bit p) ;;
  let intMax := Int.to_u64 m in
  Ret (value <=? intMax).

(** [bool isLongValue(MathLib::bigint value) const] *)
Definition isLongValue (p : Platform) (value : Z) : outcome bool :=
  lo <- min_value (long_bit p) ;;
  if value >=? lo then
    hi <- max_value (long_bit p) ;;
    Ret (value <=? hi)
  else Ret false.

(** [bool isLongValue(MathLib::biguint value) const] *)
Definition isLongValue_u (p : Platform) (value : Z) : outcome bool :=
  m <- max_value (long_bit p) ;;
  let longMax := Int.to_u64 m in
  Ret (value <=? longMax).

(** [bool isLongLongValue(MathLib::biguint value) const] *)
Definition isLongLongValue_u (p : Platform) (value : Z) : outcome bool :=
  m <- max_value (long_long_bit p) ;;
  let longLongMax := Int.to_u64 m in
  Ret (value <=? longLongMax).

(** ** Type queries *)

(** [bool isWindows() const] *)
Definition isWindows (p : Platform) : bool :=
  (type p =? PlatformType.to_u8 Win32A) ||
  (type p =? PlatformType.to_u8 Win32W) ||
  (type p =? PlatformType.to_u8 Win64).

(** [static const char *toString(Type pt)]: the [switch] has a case for each
    enumerator, and [default] throws. *)
Definition toString_of (pt : Z) : outcome string :=
  match PlatformType.of_u8 pt with
  | Some Unspecified => Ret "unspecified"
  | Some Native => Ret "native"
  | Some Win32A => Ret "win32A"
  | Some Win32W => Ret "win32W"
  | Some Win64 => Ret "win64"
  | Some Unix32 => Ret "unix32"
  | Some Unix64 => Ret "unix64"
  | Some File => Ret "platformFile"
  | None => Throw "unknown platform"
  end.

(** [const char *toString() const] *)
Definition toString (p : Platform) : outcome string :=
  toString_of (type p).

(** ** Char limits *)

(** [long long unsignedCharMax() const].  [char_bit + 1] is an [int]; the
    call converts it to the parameter's type, [std::uint8_t]. *)
Definition unsignedCharMax (p : Platform) : outcome Z :=
  max_value (Int.to_u8 (char_bit p + 1)).

(** [long long signedCharMax() const] *)
Definition signedCharMax (p : Platform) : outcome Z :=
  max_value (char_bit p).

(** [long long signedCharMin() const] *)
Definition signedCharMin (p : Platform) : outcome Z :=
  min_value (char_bit p).

(** ** Populated descriptors *)

(** Every width and every size is strictly positive (the invariant of a
    descriptor once it has been populated). *)
Definition populated (p : Platform) : bool :=
  forallb (fun z => 0 <? z)
    [char_bit p; short_bit p; int_bit p; long_bit p; long_long_bit p;
     sizeof_bool p; sizeof_short p; sizeof_int p; sizeof_long p;
     sizeof_long_long p; sizeof_float p; sizeof_double p;
     sizeof_long_double p; sizeof_wchar_t p; sizeof_size_t p;
     sizeof_pointer p].

(** A descriptor of an LP64 Unix target: 8-bit char, 32-bit int, 64-bit long
    and pointers, sign of plain char unknown. *)
Definition lp64 : Platform :=
  {| char_bit := 8; short_bit := 16; int_bit := 32; long_bit := 64;
     long_long_bit := 64;
     sizeof_bool := 1; sizeof_short := 2; sizeof_int := 4; sizeof_long := 8;
     sizeof_long_long := 8; sizeof_float := 4; sizeof_double := 8;
     sizeof_long_double := 16; sizeof_wchar_t := 4; sizeof_size_t := 8;
     sizeof_pointer := 8;
     defaultSign := "000"%char;
     type := PlatformType.to_u8 Unix64 |}.

(** The same descriptor with another stored type value, or another width of
    char. *)
Definition with_type (p : Platform) (v : Z) : Platform :=
  {| char_bit := char_bit p; short_bit := short_bit p; int_bit := int_bit p;
     long_bit := long_bit p; long_long_bit := long_long_bit p;
     sizeof_bool := sizeof_bool p; sizeof_short := sizeof_short p;
     sizeof_int := sizeof_int p; sizeof_long := sizeof_long p;
     sizeof_long_long := sizeof_long_long p; sizeof_float := sizeof_float p;
     sizeof_double := sizeof_double p;
     sizeof_long_double := sizeof_long_double p;
     sizeof_wchar_t := sizeof_wchar_t p; sizeof_size_t := sizeof_size_t p;
     sizeof_pointer := sizeof_pointer p;
     defaultSign := defaultSign p;
     type := v |}.

Definition with_char_bit (p : Platform) (bits : Z) : Platform :=
  {| char_bit := bits; short_bit := short_bit p; int_bit := int_bit p;
     long_bit := long_bit p; long_long_bit := long_long_bit p;
     sizeof_bool := sizeof_bool p; sizeof_short := sizeof_short p;
     sizeof_int := sizeof_int p; sizeof_long := sizeof_long p;
     sizeof_long_long := sizeof_long_long p; sizeof_float := sizeof_float p;
     sizeof_double := sizeof_double p;
     sizeof_long_double := sizeof_long_double p;
     sizeof_wchar_t := sizeof_wchar_t p; sizeof_size_t := sizeof_size_t p;
     sizeof_pointer := sizeof_pointer p;
     defaultSign := defaultSign p;
     type := type p |}.

(** ** Setting the platform from a string *)

Module Loader.

(** What trying one candidate path ends in. *)
Inductive attempt : Set :=
| NotFound
| ParseError
| Loaded (p : Platform).

(** One line of the debug trace: the candidate and what became of it. *)
Inductive trace_outcome : Set :=
| TraceNotFound
| TraceParseError
| TraceSuccess.

Definition trace_of (a : attempt) : trace_outcome :=
  match a with
  | NotFound => TraceNotFound
  | ParseError => TraceParseError
  | Loaded _ => TraceSuccess
  end.

(** Modelled from the spec: the labels [set] accepts as presets are those of
    platform.cpp, outside the header embedded here; the spec lists
    them, and says that "platformFile" is not a settable preset. *)
Definition preset_of_label (s : string) : option Type_ :=
  if String.eqb s "unspecified" then Some Unspecified
  else if String.eqb s "native" then Some Native
  else if String.eqb s "win32A" then Some Win32A
  else if String.eqb s "win32W" then Some Win32W
  else if String.eqb s "win64" then Some Win64
  else if String.eqb s "unix32" then Some Unix32
  else if String.eqb s "unix64" then Some Unix64
  else None.

(** What a call of [set] leaves behind: the returned flag, the error
    string, the descriptor, and the lines written to the debug trace. *)
Record set_result : Set := mkSetResult {
  ok : bool;
  errstr : string;
  platform : Platform;
  trace : list (string * trace_outcome)
}.

Section WithEnvironment.

(** The table of presets: the descriptor a preset overwrites the current
    one with.  Its values live in platform.cpp. *)
Variable apply_preset : Type_ -> Platform -> Platform.

(** Opening and parsing the description file at a path (the file system
    and the XML reader). *)
Variable load : string -> attempt.

(** A file name resolved relative to a directory. *)
Variable resolve : string -> string -> string.

(** The directory of the running executable. *)
Variable exe_dir : string.

(** Modelled from the spec: the candidates of the file lookup, which
    platform.cpp performs.  In order: the literal path, the path relative
    to each search directory, the path relative to the executable. *)
Definition candidates (name : string) (paths : list string) : list string :=
  name :: map (fun dir => resolve dir name) paths ++ [resolve exe_dir name].

(** Modelled from the spec: trying the candidates in order; the first one
    that opens and parses wins, and every attempt is one trace line. *)
Fixpoint first_loaded (cs : list string)
  : option Platform * list (string * trace_outcome) :=
  match cs with
  | [] => (None, [])
  | c :: rest =>
      match load c with
      | Loaded q => (Some q, [(c, TraceSuccess)])
      | a =>
          let (r, tr) := first_loaded rest in
          (r, (c, trace_of a) :: tr)
      end
  end.

(** Modelled from the spec: the message left on failure.  The spec asks
    for a descriptive, human-readable message and does not fix its
    text; this one names the platform that was asked for. *)
Definition failure_message (platformstr : string) : string :=
  ("unrecognized platform: '" ++ platformstr ++ "'.")%string.

(** Modelled from the spec: [bool set(const std::string& platformstr,
    std::string& errstr, const std::vector<std::string>& paths, bool
    debug)], whose body is in platform.cpp.  A preset label applies the
    preset and succeeds; any other string is looked up as a description
    file; when every candidate fails the call returns false with a
    message in [errstr] and the descriptor as it was.  The trace is
    written only when [debug] is set. *)
Definition set (p : Platform) (platformstr : string) (errstr0 : string)
    (paths : list string) (debug : bool) : set_result :=
  match preset_of_label platformstr with
  | Some t => mkSetResult true errstr0 (apply_preset t p) []
  | None =>
      let (r, tr) := first_loaded (candidates platformstr paths) in
      let tr' := if debug then tr else [] in
      match r with
      | Some q => mkSetResult true errstr0 q tr'
      | None => mkSetResult false (failure_message platformstr) p tr'
      end
  end.

End WithEnvironment.

End Loader.

(** ** Limits defines *)

Module Standards.

(** Modelled from the spec: the language standards of standards.h, which is
    outside the header embedded here, identified by their year and ordered
    by age. *)
Inductive cstd_t : Set := C89 | C99 | C11 | C17 | C23.
Inductive cppstd_t : Set :=
  CPP03 | CPP11 | CPP14 | CPP17 | CPP20 | CPP23 | CPP26.

Definition cstd_rank (s : cstd_t) : Z :=
  match s with C89 => 0 | C99 => 1 | C11 => 2 | C17 => 3 | C23 => 4 end.

Definition cppstd_rank (s : cppstd_t) : Z :=
  match s with
  | CPP03 => 0 | CPP11 => 1 | CPP14 => 2 | CPP17 => 3
  | CPP20 => 4 | CPP23 => 5 | CPP26 => 6
  end.

End Standards.

Module Limits.

(** One definition, [NAME=value]. *)
Definition define : Set := (string * Z)%type.

Definition long_long_macros : list string :=
  ["LLONG_MIN"; "LLONG_MAX"; "ULLONG_MAX"].

Definition names (ds : list define) : list string := map fst ds.

(** A macro is emitted when a definition carries its name. *)
Definition emits (ds : list define) (name : string) : bool :=
  existsb (String.eqb name) (names ds).

(** Modelled from the spec: [std::string getLimitsDefines(bool c99) const],
    whose body is in platform.cpp.  The definitions are kept as a list, one
    per macro, in place of the text that lists them; the macros are those
    the spec names, with the bounds of the descriptor's widths as their
    values, and the long-long family only when [c99] is set. *)
Definition getLimitsDefines_c99 (p : Platform) (c99 : bool)
  : outcome (list define) :=
  int_min <- min_value (int_bit p) ;;
  int_max <- max_value (int_bit p) ;;
  long_min <- min_value (long_bit p) ;;
  long_max <- max_value (long_bit p) ;;
  let base :=
    [("CHAR_BIT", char_bit p);
     ("INT_MIN", int_min); ("INT_MAX", int_max);
     ("LONG_MIN", long_min); ("LONG_MAX", long_max)] in
  if c99 then
    llong_min <- min_value (long_long_bit p) ;;
    llong_max <- max_value (long_long_bit p) ;;
    ullong_max <- max_value_unsigned (long_long_bit p) ;;
    Ret (base ++
         [("LLONG_MIN", llong_min); ("LLONG_MAX", llong_max);
          ("ULLONG_MAX", ullong_max)])%list
  else Ret base.

(** Modelled from the spec: [std::string getLimitsDefines(Standards::cstd_t
    cstd) const]; the long-long family is there from C99 onward. *)
Definition getLimitsDefines (p : Platform) (cstd : Standards.cstd_t)
  : outcome (list define) :=
  getLimitsDefines_c99 p
    (Standards.cstd_rank cstd >=? Standards.cstd_rank Standards.C99).

(** Modelled from the spec: [std::string
    getLimitsDefines(Standards::cppstd_t cppstd) const]; the long-long
    family is there from C++11 onward. *)
Definition getLimitsDefines_cpp (p : Platform) (cppstd : Standards.cppstd_t)
  : outcome (list define) :=
  getLimitsDefines_c99 p
    (Standards.cppstd_rank cppstd >=? Standards.cppstd_rank Standards.CPP11).

End Limits.

(** * Properties *)

(** ** Fixed-width arithmetic *)

Section IntFacts.

Import Int.

Lemma to_s64_small (z : Z) : is_s64 z -> to_s64 z = z.
Proof.
  unfold is_s64, to_s64, LLONG_MIN, LLONG_MAX. intros H.
  rewrite Z.mod_small; lia.
Qed.

Lemma to_u64_small (z : Z) : is_u64 z -> to_u64 z = z.
Proof.
  unfold is_u64, to_u64, ULLONG_MAX. intros H.
  apply Z.mod_small. lia.
Qed.

Lemma to_u8_small (z : Z) : is_u8 z -> to_u8 z = z.
Proof. unfold is_u8, to_u8. intros H. apply Z.mod_small. lia. Qed.

Lemma pow2_le (n m : Z) : 0 <= n <= m -> 1 <= 2 ^ n <= 2 ^ m.
Proof.
  intros H. split.
  - assert (0 < 2 ^ n) by (apply Z.pow_pos_nonneg; lia). lia.
  - apply Z.pow_le_mono_r; lia.
Qed.

Lemma not0_u64_value : not0_u64 = ULLONG_MAX.
Proof. reflexivity. Qed.

Lemma shr_not0_value : to_s64 (shr_u64 not0_u64 1) = LLONG_MAX.
Proof. reflexivity. Qed.

(** [1LL << n] does not overflow for a count up to 62. *)
Lemma shl_s64_1 (n : Z) : 0 <= n <= 62 -> shl_s64 1 n = 2 ^ n.
Proof.
  intros H. unfold shl_s64. rewrite Z.shiftl_1_l.
  apply to_s64_small. unfold is_s64, LLONG_MIN, LLONG_MAX.
  pose proof (pow2_le n 62 H) as B.
  change (2 ^ 63) with (2 * 2 ^ 62). lia.
Qed.

(** [1ULL << n] does not overflow for a count up to 63. *)
Lemma shl_u64_1 (n : Z) : 0 <= n <= 63 -> shl_u64 1 n = 2 ^ n.
Proof.
  intros H. unfold shl_u64. rewrite Z.shiftl_1_l.
  apply to_u64_small. unfold is_u64, ULLONG_MAX.
  pose proof (pow2_le n 63 H) as B.
  change (2 ^ 64) with (2 * 2 ^ 63). lia.
Qed.

End IntFacts.

(** ** The three bounds *)

Section Bounds.

Variable b : Z.

Lemma assert_pos : 0 < b -> assert (b >? 0) = Ret tt.
Proof. intros H. unfold assert. destruct (Z.gtb_spec b 0); [reflexivity | lia]. Qed.

Lemma min_value_small : 1 <= b <= 63 -> min_value b = Ret (- 2 ^ (b - 1)).
Proof.
  intros H. unfold min_value. rewrite assert_pos by lia. cbn [bind].
  destruct (Z.geb_spec b 64); [lia |].
  rewrite shl_s64_1 by lia. unfold Int.neg_s64.
  rewrite to_s64_small; [reflexivity |].
  unfold Int.is_s64, Int.LLONG_MIN, Int.LLONG_MAX.
  pose proof (pow2_le (b - 1) 62 ltac:(lia)).
  change (2 ^ 63) with (2 * 2 ^ 62). lia.
Qed.

Lemma max_value_small : 1 <= b <= 63 -> max_value b = Ret (2 ^ (b - 1) - 1).
Proof.
  intros H. unfold max_value. rewrite assert_pos by lia. cbn [bind].
  destruct (Z.geb_spec b 64); [lia |].
  rewrite shl_s64_1 by lia. unfold Int.sub_s64.
  rewrite to_s64_small; [reflexivity |].
  unfold Int.is_s64, Int.LLONG_MIN, Int.LLONG_MAX.
  pose proof (pow2_le (b - 1) 62 ltac:(lia)).
  change (2 ^ 63) with (2 * 2 ^ 62). lia.
Qed.

Lemma max_value_unsigned_small :
  1 <= b <= 63 -> max_value_unsigned b = Ret (2 ^ b - 1).
Proof.
  intros H. unfold max_value_unsigned. rewrite assert_pos by lia. cbn [bind].
  destruct (Z.geb_spec b 64); [lia |].
  rewrite shl_u64_1 by lia. unfold Int.sub_u64.
  rewrite to_u64_small; [reflexivity |].
  unfold Int.is_u64, Int.ULLONG_MAX.
  pose proof (pow2_le b 63 ltac:(lia)).
  change (2 ^ 64) with (2 * 2 ^ 63). lia.
Qed.

Lemma min_value_wide : 64 <= b -> min_value b = Ret Int.LLONG_MIN.
Proof.
  intros H. unfold min_value. rewrite assert_pos by lia. cbn [bind].
  destruct (Z.geb_spec b 64); [reflexivity | lia].
Qed.

Lemma max_value_wide : 64 <= b -> max_value b = Ret Int.LLONG_MAX.
Proof.
  intros H. unfold max_value. rewrite assert_pos by lia. cbn [bind].
  destruct (Z.geb_spec b 64); [| lia].
  rewrite shr_not0_value. reflexivity.
Qed.

Lemma max_value_unsigned_wide :
  64 <= b -> max_value_unsigned b = Ret Int.ULLONG_MAX.
Proof.
  intros H. unfold max_value_unsigned. rewrite assert_pos by lia. cbn [bind].
  destruct (Z.geb_spec b 64); [| lia].
  rewrite not0_u64_value. reflexivity.
Qed.

Lemma bounds_nonpositive_width :
  b <= 0 ->
  min_value b = AssertFail /\ max_value b = AssertFail /\
  max_value_unsigned b = AssertFail.
Proof.
  intros H. unfold min_value, max_value, max_value_unsigned, assert.
  destruct (Z.gtb_spec b 0); [lia |]. repeat split.
Qed.

End Bounds.

Example min_value_8 : min_value 8 = Ret (-128).
Proof. reflexivity. Qed.

Example max_value_8 : max_value 8 = Ret 127.
Proof. reflexivity. Qed.

Example max_value_unsigned_8 : max_value_unsigned 8 = Ret 255.
Proof. reflexivity. Qed.

Example max_value_64 : max_value 64 = Ret 9223372036854775807.
Proof. reflexivity. Qed.

Example max_value_unsigned_63 :
  max_value_unsigned 63 = Ret 9223372036854775807.
Proof. reflexivity. Qed.

Example min_value_0 : min_value 0 = AssertFail.
Proof. reflexivity. Qed.

(** C1: for a width [b] from 1 to 63, [min_value b] returns -2^(b-1),
    [max_value b] returns 2^(b-1) - 1 and [max_value_unsigned b] returns
    2^b - 1; for a width of 64 or more they return the least 64-bit signed
    value, the greatest 64-bit signed value and the all-ones 64-bit pattern,
    2^64 - 1. *)
Theorem bounds_by_width (b : Z) :
  (1 <= b <= 63 ->
   min_value b = Ret (- 2 ^ (b - 1)) /\
   max_value b = Ret (2 ^ (b - 1) - 1) /\
   max_value_unsigned b = Ret (2 ^ b - 1)) /\
  (64 <= b ->
   min_value b = Ret (- 2 ^ 63) /\
   max_value b = Ret (2 ^ 63 - 1) /\
   max_value_unsigned b = Ret (2 ^ 64 - 1)).
Proof.
  split; intros H.
  - auto using min_value_small, max_value_small, max_value_unsigned_small.
  - rewrite min_value_wide, max_value_wide, max_value_unsigned_wide by lia.
    repeat split.
Qed.

Lemma bounds_by_width_witness :
  (min_value 32 = Ret (- 2 ^ (32 - 1)) /\
   max_value 32 = Ret (2 ^ (32 - 1) - 1) /\
   max_value_unsigned 32 = Ret (2 ^ 32 - 1)) /\
  (min_value 64 = Ret (- 2 ^ 63) /\
   max_value 64 = Ret (2 ^ 63 - 1) /\
   max_value_unsigned 64 = Ret (2 ^ 64 - 1)).
Proof.
  split.
  - apply (proj1 (bounds_by_width 32)). lia.
  - apply (proj2 (bounds_by_width 64)). lia.
Defined.

(** C7: for a width [b] from 1 to 64, [min_value b <= 0 <= max_value b]; for
    a width from 1 to 63, [max_value_unsigned b = 2 * max_value b + 1]. *)
Theorem bounds_signs_and_doubling (b : Z) :
  (1 <= b <= 64 ->
   exists lo hi,
     min_value b = Ret lo /\ max_value b = Ret hi /\ lo <= 0 <= hi) /\
  (1 <= b <= 63 ->
   exists hi umax,
     max_value b = Ret hi /\ max_value_unsigned b = Ret umax /\
     umax = 2 * hi + 1).
Proof.
  split; intros H.
  - destruct (Z.eq_dec b 64) as [-> | Hne].
    + exists Int.LLONG_MIN, Int.LLONG_MAX.
      rewrite min_value_wide, max_value_wide by lia.
      unfold Int.LLONG_MIN, Int.LLONG_MAX. repeat split; lia.
    + exists (- 2 ^ (b - 1)), (2 ^ (b - 1) - 1).
      rewrite min_value_small, max_value_small by lia.
      pose proof (pow2_le (b - 1) 62 ltac:(lia)). repeat split; lia.
  - exists (2 ^ (b - 1) - 1), (2 ^ b - 1).
    rewrite max_value_small, max_value_unsigned_small by lia.
    repeat split.
    replace b with (Z.succ (b - 1)) at 1 by lia.
    rewrite Z.pow_succ_r by lia. lia.
Qed.

Lemma bounds_signs_and_doubling_witness :
  (exists lo hi,
     min_value 64 = Ret lo /\ max_value 64 = Ret hi /\ lo <= 0 <= hi) /\
  (exists hi umax,
     max_value 16 = Ret hi /\ max_value_unsigned 16 = Ret umax /\
     umax = 2 * hi + 1).
Proof.
  split.
  - apply (proj1 (bounds_signs_and_doubling 64)). lia.
  - apply (proj2 (bounds_signs_and_doubling 16)). lia.
Defined.

(** ** Range queries *)

Section Queries.

(** The shape shared by the signed queries, for a width [w]. *)
Lemma signed_query_true (w value : Z) :
  (lo <- min_value w ;;
   if value >=? lo then hi <- max_value w ;; Ret (value <=? hi)
   else Ret false) = Ret true <->
  exists lo hi,
    min_value w = Ret lo /\ max_value w = Ret hi /\ lo <= value <= hi.
Proof.
  split.
  - destruct (min_value w) as [lo | |] eqn:Hlo; cbn [bind]; try discriminate.
    destruct (Z.geb_spec value lo); try discriminate.
    destruct (max_value w) as [hi | |] eqn:Hhi; cbn [bind]; try discriminate.
    intros [= Hle]. apply Z.leb_le in Hle. exists lo, hi. auto.
  - intros (lo & hi & -> & Hhi & Hlo & Hle). cbn [bind].
    destruct (Z.geb_spec value lo); [| lia].
    rewrite Hhi. cbn [bind]. f_equal. apply Z.leb_le. exact Hle.
Qed.

Lemma signed_query_returns (w value : Z) :
  0 < w ->
  exists r,
    (lo <- min_value w ;;
     if value >=? lo then hi <- max_value w ;; Ret (value <=? hi)
     else Ret false) = Ret r.
Proof.
  intros Hw. unfold min_value, max_value. rewrite assert_pos by exact Hw.
  cbn [bind]. destruct (w >=? 64); cbn [bind];
    match goal with |- context [if ?c then _ else _] => destruct c end;
    eauto.
Qed.

(** The shape shared by the unsigned queries, for a width [w]. *)
Lemma unsigned_query_true (w value : Z) :
  (m <- max_value w ;; Ret (value <=? Int.to_u64 m)) = Ret true <->
  exists hi, max_value w = Ret hi /\ value <= Int.to_u64 hi.
Proof.
  split.
  - destruct (max_value w) as [hi | |] eqn:Hhi; cbn [bind]; try discriminate.
    intros [= Hle]. apply Z.leb_le in Hle. eauto.
  - intros (hi & -> & Hle). cbn [bind]. f_equal. apply Z.leb_le. exact Hle.
Qed.

Lemma unsigned_query_returns (w value : Z) :
  0 < w -> exists r, (m <- max_value w ;; Ret (value <=? Int.to_u64 m)) = Ret r.
Proof.
  intros Hw. unfold max_value. rewrite assert_pos by exact Hw.
  cbn [bind]. destruct (w >=? 64); cbn [bind]; eauto.
Qed.

(** The greatest signed value of a width is not negative, so reading it as
    unsigned leaves it as it is. *)
Lemma max_value_as_unsigned (w hi : Z) :
  max_value w = Ret hi -> Int.to_u64 hi = hi /\ 0 <= hi <= Int.LLONG_MAX.
Proof.
  intros Hhi.
  destruct (Z_le_gt_dec w 0) as [Hle | Hgt].
  { destruct (bounds_nonpositive_width w Hle) as (_ & E & _). congruence. }
  assert (B : 0 <= hi <= Int.LLONG_MAX).
  { destruct (Z_lt_ge_dec w 64).
    - rewrite max_value_small in Hhi by lia. injection Hhi as <-.
      pose proof (pow2_le (w - 1) 62 ltac:(lia)).
      unfold Int.LLONG_MAX. change (2 ^ 63) with (2 * 2 ^ 62). lia.
    - rewrite max_value_wide in Hhi by lia. injection Hhi as <-.
      unfold Int.LLONG_MAX. lia. }
  split; [| exact B].
  apply to_u64_small. unfold Int.is_u64, Int.ULLONG_MAX.
  unfold Int.LLONG_MAX in B. lia.
Qed.

End Queries.

(** C2: [isIntValue] on a signed value returns true exactly when the value
    lies between [min_value (int_bit p)] and [max_value (int_bit p)], for
    every descriptor and every value; it returns whenever the width is
    positive; with 32 bits in an int it accepts 2147483647 and -2147483648
    and rejects 2147483648 and -2147483649. *)
Theorem isIntValue_signed_range (p : Platform) (value : Z) :
  (isIntValue p value = Ret true <->
   exists lo hi,
     min_value (int_bit p) = Ret lo /\ max_value (int_bit p) = Ret hi /\
     lo <= value <= hi) /\
  (0 < int_bit p -> exists r, isIntValue p value = Ret r) /\
  (int_bit p = 32 ->
   isIntValue p 2147483647 = Ret true /\
   isIntValue p 2147483648 = Ret false /\
   isIntValue p (-2147483648) = Ret true /\
   isIntValue p (-2147483649) = Ret false).
Proof.
  unfold isIntValue. split; [| split].
  - apply signed_query_true.
  - apply signed_query_returns.
  - intros ->. repeat split.
Qed.

Lemma isIntValue_signed_range_witness :
  (exists r, isIntValue lp64 5 = Ret r) /\
  isIntValue lp64 2147483647 = Ret true /\
  isIntValue lp64 2147483648 = Ret false /\
  isIntValue lp64 (-2147483648) = Ret true /\
  isIntValue lp64 (-2147483649) = Ret false.
Proof.
  destruct (isIntValue_signed_range lp64 5) as (_ & Hret & Hex).
  split.
  - apply Hret. reflexivity.
  - apply Hex. reflexivity.
Defined.

(** C3: [isIntValue] on an unsigned value returns true exactly when the value
    is at most [max_value (int_bit p)] read as unsigned; the least signed
    value plays no part in the answer; [isLongValue] and [isLongLongValue] on
    an unsigned value do the same with [long_bit] and [long_long_bit].
    Reading the greatest signed value as unsigned does not change it, and
    each query returns whenever its width is positive. *)
Theorem unsigned_queries_max_only (p : Platform) (value : Z) :
  (isIntValue_u p value = Ret true <->
   exists hi, max_value (int_bit p) = Ret hi /\ value <= Int.to_u64 hi) /\
  (isLongValue_u p value = Ret true <->
   exists hi, max_value (long_bit p) = Ret hi /\ value <= Int.to_u64 hi) /\
  (isLongLongValue_u p value = Ret true <->
   exists hi, max_value (long_long_bit p) = Ret hi /\ value <= Int.to_u64 hi) /\
  (forall w hi, max_value w = Ret hi -> Int.to_u64 hi = hi) /\
  (0 < int_bit p -> exists r, isIntValue_u p value = Ret r) /\
  (0 < long_bit p -> exists r, isLongValue_u p value = Ret r) /\
  (0 < long_long_bit p -> exists r, isLongLongValue_u p value = Ret r).
Proof.
  unfold isIntValue_u, isLongValue_u, isLongLongValue_u.
  split; [apply unsigned_query_true |].
  split; [apply unsigned_query_true |].
  split; [apply unsigned_query_true |].
  split; [intros w hi Hhi; apply (max_value_as_unsigned w hi Hhi) |].
  repeat split; apply unsigned_query_returns; assumption.
Qed.

Lemma unsigned_queries_max_only_witness :
  (exists r, isIntValue_u lp64 5 = Ret r) /\
  (exists r, isLongValue_u lp64 5 = Ret r) /\
  (exists r, isLongLongValue_u lp64 5 = Ret r).
Proof.
  destruct (unsigned_queries_max_only lp64 5)
    as (_ & _ & _ & _ & Hi & Hl & Hll).
  repeat split; [apply Hi | apply Hl | apply Hll]; reflexivity.
Defined.

(** ** The type tag *)

Lemma of_u8_to_u8 (t : Type_) :
  PlatformType.of_u8 (PlatformType.to_u8 t) = Some t.
Proof. destruct t; reflexivity. Qed.

Lemma of_u8_outside (v : Z) :
  v < 0 \/ 7 < v -> PlatformType.of_u8 v = None.
Proof.
  intros H. destruct v as [| q | q]; [lia | | reflexivity].
  do 3 (try destruct q as [q | q |]); try reflexivity; lia.
Qed.

Lemma of_u8_no_enumerator (v : Z) :
  (forall t, v <> PlatformType.to_u8 t) -> PlatformType.of_u8 v = None.
Proof.
  intros H. apply of_u8_outside.
  destruct (Z_lt_ge_dec v 0) as [| Hge]; [left; assumption | right].
  destruct (Z_lt_ge_dec 7 v) as [| Hle]; [assumption | exfalso].
  assert (C : v = 0 \/ v = 1 \/ v = 2 \/ v = 3 \/ v = 4 \/ v = 5 \/ v = 6 \/
              v = 7) by lia.
  destruct C as [C | [C | [C | [C | [C | [C | [C | C]]]]]]].
  - exact (H Unspecified C).
  - exact (H Native C).
  - exact (H Win32A C).
  - exact (H Win32W C).
  - exact (H Win64 C).
  - exact (H Unix32 C).
  - exact (H Unix64 C).
  - exact (H File C).
Qed.

(** C5: [toString] gives each of the eight type tags its label,
    "unspecified", "native", "win32A", "win32W", "win64", "unix32", "unix64"
    and "platformFile"; on a stored value that is none of the eight it throws
    and returns no string. *)
Theorem toString_labels_or_throws (p : Platform) :
  (forall t, type p = PlatformType.to_u8 t ->
     toString p =
     Ret match t with
         | Unspecified => "unspecified"
         | Native => "native"
         | Win32A => "win32A"
         | Win32W => "win32W"
         | Win64 => "win64"
         | Unix32 => "unix32"
         | Unix64 => "unix64"
         | File => "platformFile"
         end) /\
  ((forall t, type p <> PlatformType.to_u8 t) ->
     toString p = Throw "unknown platform" /\
     forall s, toString p <> Ret s).
Proof.
  unfold toString, toString_of. split.
  - intros t ->. rewrite of_u8_to_u8. destruct t; reflexivity.
  - intros H. rewrite (of_u8_no_enumerator _ H). split; [reflexivity |].
    intros s. discriminate.
Qed.

Lemma toString_labels_or_throws_witness :
  toString (with_type lp64 4) = Ret "win64" /\
  toString (with_type lp64 8) = Throw "unknown platform".
Proof.
  split.
  - apply (proj1 (toString_labels_or_throws (with_type lp64 4)) Win64).
    reflexivity.
  - apply (proj2 (toString_labels_or_throws (with_type lp64 8))).
    intros t. destruct t; discriminate.
Defined.

(** C9: [isWindows] returns true exactly when the type tag is Win32A, Win32W
    or Win64; for Unspecified, Native, Unix32, Unix64 and File it returns
    false. *)
Theorem isWindows_iff_windows_tag (p : Platform) :
  (isWindows p = true <->
   type p = PlatformType.to_u8 Win32A \/
   type p = PlatformType.to_u8 Win32W \/
   type p = PlatformType.to_u8 Win64) /\
  (forall t, In t [Unspecified; Native; Unix32; Unix64; File] ->
     type p = PlatformType.to_u8 t -> isWindows p = false).
Proof.
  unfold isWindows. split.
  - rewrite !orb_true_iff, !Z.eqb_eq. tauto.
  - intros t Hin ->. cbn in Hin.
    destruct Hin as [<- | [<- | [<- | [<- | [<- | []]]]]]; reflexivity.
Qed.

Lemma isWindows_iff_windows_tag_witness : isWindows lp64 = false.
Proof.
  apply (proj2 (isWindows_iff_windows_tag lp64) Unix64).
  - cbn. tauto.
  - reflexivity.
Defined.

(** ** Char limits *)

(** What [unsignedCharMax] returns for the widths whose successor still fits
    the 8-bit parameter of [max_value]. *)
Lemma unsignedCharMax_value (p : Platform) :
  (1 <= char_bit p <= 63 ->
   unsignedCharMax p = Ret (2 ^ char_bit p - 1) /\
   unsignedCharMax p = max_value_unsigned (char_bit p)) /\
  (64 <= char_bit p <= 254 ->
   unsignedCharMax p = Ret (2 ^ 63 - 1) /\
   max_value_unsigned (char_bit p) = Ret (2 ^ 64 - 1)).
Proof.
  unfold unsignedCharMax. split; intros H.
  - rewrite to_u8_small by (unfold Int.is_u8; lia).
    rewrite max_value_unsigned_small by lia.
    destruct (Z.eq_dec (char_bit p) 63) as [E | NE].
    + rewrite E. split; reflexivity.
    + rewrite max_value_small by lia.
      replace (char_bit p + 1 - 1) with (char_bit p) by lia.
      split; reflexivity.
  - rewrite to_u8_small by (unfold Int.is_u8; lia).
    rewrite max_value_wide, max_value_unsigned_wide by lia.
    split; reflexivity.
Qed.

(** C4: [unsignedCharMax] is [max_value] called with [char_bit + 1], the
    argument passing through the 8-bit parameter, and not [max_value_unsigned]
    called with [char_bit]: the two differ when char has 64 bits.  With 8 bits
    in a char it is [max_value 9], which is 255. *)
Theorem unsignedCharMax_width_plus_one (p : Platform) :
  unsignedCharMax p = max_value (Int.to_u8 (char_bit p + 1)) /\
  (0 <= char_bit p < 255 -> unsignedCharMax p = max_value (char_bit p + 1)) /\
  (char_bit p = 8 -> unsignedCharMax p = max_value 9 /\ max_value 9 = Ret 255) /\
  (char_bit p = 64 -> unsignedCharMax p <> max_value_unsigned (char_bit p)).
Proof.
  unfold unsignedCharMax. split; [reflexivity |]. split; [| split].
  - intros H. rewrite to_u8_small by (unfold Int.is_u8; lia). reflexivity.
  - intros ->. split; reflexivity.
  - intros ->. discriminate.
Qed.

Lemma unsignedCharMax_width_plus_one_witness :
  unsignedCharMax lp64 = max_value (char_bit lp64 + 1) /\
  (unsignedCharMax lp64 = max_value 9 /\ max_value 9 = Ret 255) /\
  unsignedCharMax (with_char_bit lp64 64) <>
  max_value_unsigned (char_bit (with_char_bit lp64 64)).
Proof.
  destruct (unsignedCharMax_width_plus_one lp64) as (_ & Hsmall & H8 & _).
  destruct (unsignedCharMax_width_plus_one (with_char_bit lp64 64))
    as (_ & _ & _ & H64).
  split; [apply Hsmall; cbn; lia |].
  split; [apply H8; reflexivity | apply H64; reflexivity].
Defined.

(** C10: with 255 bits in a char, a width of 64 or more that fits the
    8-bit field, [char_bit + 1] is 256 and reaches [max_value] as 0: the call
    trips [assert(bit > 0)] and [unsignedCharMax] returns no value, where
    saturation would give 2^63 - 1. *)
Theorem unsignedCharMax_255_trips_assert :
  widths_fit (with_char_bit lp64 255) /\
  64 <= char_bit (with_char_bit lp64 255) /\
  Int.to_u8 (char_bit (with_char_bit lp64 255) + 1) = 0 /\
  unsignedCharMax (with_char_bit lp64 255) = AssertFail /\
  unsignedCharMax (with_char_bit lp64 255) <> Ret (2 ^ 63 - 1).
Proof.
  split.
  - constructor; unfold Int.is_u8; cbn; lia.
  - cbn [with_char_bit char_bit]. repeat split; try lia; discriminate.
Qed.

(** ** Setting the platform from a string *)

Section SetFails.

Variable apply_preset : Type_ -> Platform -> Platform.
Variable load : string -> Loader.attempt.
Variable resolve : string -> string -> string.
Variable exe_dir : string.

Lemma first_loaded_none (cs : list string) :
  (forall c, In c cs -> forall q, load c <> Loader.Loaded q) ->
  fst (Loader.first_loaded load cs) = None.
Proof.
  induction cs as [| c rest IH]; intros H; [reflexivity |].
  cbn [Loader.first_loaded].
  assert (Hc := H c (or_introl eq_refl)).
  specialize (IH (fun c' Hin => H c' (or_intror Hin))).
  destruct (load c) as [| | q];
    [| | exfalso; exact (Hc q eq_refl)];
    destruct (Loader.first_loaded load rest); exact IH.
Qed.

Lemma failure_message_nonempty (s : string) :
  Loader.failure_message s <> "".
Proof. discriminate. Qed.

End SetFails.

(** The debug flag changes the trace and nothing else. *)
Lemma set_debug_only_traces
    (apply_preset : Type_ -> Platform -> Platform)
    (load : string -> Loader.attempt)
    (resolve : string -> string -> string) (exe_dir : string)
    (p : Platform) (platformstr errstr0 : string) (paths : list string) :
  let quiet := Loader.set apply_preset load resolve exe_dir
                 p platformstr errstr0 paths false in
  let loud := Loader.set apply_preset load resolve exe_dir
                p platformstr errstr0 paths true in
  Loader.ok quiet = Loader.ok loud /\
  Loader.errstr quiet = Loader.errstr loud /\
  Loader.platform quiet = Loader.platform loud /\
  Loader.trace quiet = [].
Proof.
  unfold Loader.set.
  destruct (Loader.preset_of_label platformstr); [repeat split |].
  destruct (Loader.first_loaded load _) as [[q |] tr]; repeat split.
Qed.

Example set_win64_is_preset :
  Loader.preset_of_label "win64" = Some Win64 /\
  Loader.preset_of_label "platformFile" = None.
Proof. split; reflexivity. Qed.

(** C6: when the platform string is no preset label and no candidate of the
    file lookup loads, [set] returns false, leaves a non-empty message in the
    error string, and leaves the descriptor, every field of it, as it was
    before the call. *)
Theorem set_unknown_platform_fails
    (apply_preset : Type_ -> Platform -> Platform)
    (load : string -> Loader.attempt)
    (resolve : string -> string -> string) (exe_dir : string)
    (p : Platform) (platformstr errstr0 : string) (paths : list string)
    (debug : bool) :
  Loader.preset_of_label platformstr = None ->
  (forall c, In c (Loader.candidates resolve exe_dir platformstr paths) ->
     forall q, load c <> Loader.Loaded q) ->
  let r := Loader.set apply_preset load resolve exe_dir
             p platformstr errstr0 paths debug in
  Loader.ok r = false /\
  Loader.errstr r <> "" /\
  Loader.platform r = p.
Proof.
  intros Hlabel Hnone. unfold Loader.set. rewrite Hlabel.
  pose proof (first_loaded_none load _ Hnone) as Hfst.
  destruct (Loader.first_loaded load _) as [r tr]. cbn in Hfst. subst r.
  cbn. repeat split. apply failure_message_nonempty.
Qed.

Lemma set_unknown_platform_fails_witness :
  let r := Loader.set (fun _ q => q) (fun _ => Loader.NotFound)
             (fun dir name => (dir ++ "/" ++ name)%string) "/usr/bin"
             lp64 "nonexistent-platform-xyz" "" ["/tmp"] false in
  Loader.ok r = false /\
  Loader.errstr r <> "" /\
  Loader.platform r = lp64.
Proof.
  apply set_unknown_platform_fails.
  - reflexivity.
  - intros c _ q. discriminate.
Defined.

(** ** Limits defines *)

Lemma bounds_return (w : Z) :
  0 < w ->
  exists lo hi umax,
    min_value w = Ret lo /\ max_value w = Ret hi /\
    max_value_unsigned w = Ret umax.
Proof.
  intros H. unfold min_value, max_value, max_value_unsigned.
  rewrite assert_pos by exact H. cbn [bind].
  destruct (w >=? 64); do 3 eexists; repeat split.
Qed.

Lemma populated_widths (p : Platform) :
  populated p = true ->
  0 < int_bit p /\ 0 < long_bit p /\ 0 < long_long_bit p.
Proof.
  unfold populated. cbn [forallb]. rewrite !andb_true_iff, !Z.ltb_lt. tauto.
Qed.

(** With the flag cleared no long-long macro is emitted; with the flag set
    all three are. *)
Lemma getLimitsDefines_c99_long_long (p : Platform) (c99 : bool) :
  populated p = true ->
  exists ds,
    Limits.getLimitsDefines_c99 p c99 = Ret ds /\
    forall m, In m Limits.long_long_macros -> Limits.emits ds m = c99.
Proof.
  intros Hp. destruct (populated_widths p Hp) as (Hi & Hl & Hll).
  destruct (bounds_return _ Hi) as (imin & imax & _ & Himin & Himax & _).
  destruct (bounds_return _ Hl) as (lmin & lmax & _ & Hlmin & Hlmax & _).
  destruct (bounds_return _ Hll) as (llmin & llmax & ullmax & Hllmin & Hllmax & Hullmax).
  unfold Limits.getLimitsDefines_c99.
  rewrite Himin, Himax, Hlmin, Hlmax. cbn [bind].
  destruct c99.
  - rewrite Hllmin, Hllmax, Hullmax. cbn [bind].
    eexists. split; [reflexivity |].
    intros m Hm. cbn in Hm.
    destruct Hm as [<- | [<- | [<- | []]]]; reflexivity.
  - eexists. split; [reflexivity |].
    intros m Hm. cbn in Hm.
    destruct Hm as [<- | [<- | [<- | []]]]; reflexivity.
Qed.

(** C8: for a populated descriptor [getLimitsDefines] returns a list of
    definitions fixed by the descriptor and the standard; for a standard
    older than C99 none of LLONG_MIN, LLONG_MAX and ULLONG_MAX is emitted, and
    for C99 or a later standard all three are. *)
Theorem getLimitsDefines_long_long_from_c99
    (p : Platform) (cstd : Standards.cstd_t) :
  populated p = true ->
  exists ds,
    Limits.getLimitsDefines p cstd = Ret ds /\
    (Standards.cstd_rank cstd < Standards.cstd_rank Standards.C99 ->
     forall m, In m Limits.long_long_macros -> Limits.emits ds m = false) /\
    (Standards.cstd_rank Standards.C99 <= Standards.cstd_rank cstd ->
     forall m, In m Limits.long_long_macros -> Limits.emits ds m = true).
Proof.
  intros Hp. unfold Limits.getLimitsDefines.
  destruct (getLimitsDefines_c99_long_long p
              (Standards.cstd_rank cstd >=? Standards.cstd_rank Standards.C99)
              Hp) as (ds & Hds & Hll).
  exists ds. split; [exact Hds |]. split; intros Hrank m Hm.
  - rewrite (Hll m Hm). destruct (Z.geb_spec (Standards.cstd_rank cstd)
      (Standards.cstd_rank Standards.C99)); [lia | reflexivity].
  - rewrite (Hll m Hm). destruct (Z.geb_spec (Standards.cstd_rank cstd)
      (Standards.cstd_rank Standards.C99)); [reflexivity | lia].
Qed.

Lemma getLimitsDefines_long_long_from_c99_witness :
  (exists ds,
     Limits.getLimitsDefines lp64 Standards.C89 = Ret ds /\
     Limits.emits ds "LLONG_MAX" = false) /\
  (exists ds,
     Limits.getLimitsDefines lp64 Standards.C11 = Ret ds /\
     Limits.emits ds "LLONG_MAX" = true).
Proof.
  split.
  - destruct (getLimitsDefines_long_long_from_c99 lp64 Standards.C89 eq_refl)
      as (ds & Hds & Hold & _).
    exists ds. split; [exact Hds |].
    apply Hold; [cbn; lia | cbn; tauto].
  - destruct (getLimitsDefines_long_long_from_c99 lp64 Standards.C11 eq_refl)
      as (ds & Hds & _ & Hnew).
    exists ds. split; [exact Hds |].
    apply Hnew; [cbn; lia | cbn; tauto].
Defined.

(** The C++ overload: the long-long family is there from C++11 onward. *)
Lemma getLimitsDefines_cpp_long_long_from_cpp11
    (p : Platform) (cppstd : Standards.cppstd_t) :
  populated p = true ->
  exists ds,
    Limits.getLimitsDefines_cpp p cppstd = Ret ds /\
    forall m, In m Limits.long_long_macros ->
      Limits.emits ds m =
      (Standards.cppstd_rank cppstd >=? Standards.cppstd_rank Standards.CPP11).
Proof.
  intros Hp. unfold Limits.getLimitsDefines_cpp.
  apply getLimitsDefines_c99_long_long. exact Hp.
Qed.

(** * Further properties of the header *)

(** ** The bounds in closed form *)

(** The width that counts: widths above 64 behave as 64. *)
Lemma bounds_closed_form (w : Z) :
  0 < w ->
  min_value w = Ret (- 2 ^ (Z.min w 64 - 1)) /\
  max_value w = Ret (2 ^ (Z.min w 64 - 1) - 1) /\
  max_value_unsigned w = Ret (2 ^ Z.min w 64 - 1).
Proof.
  intros Hw. destruct (Z_lt_ge_dec w 64) as [Hlt | Hge].
  - rewrite Z.min_l by lia.
    rewrite min_value_small, max_value_small, max_value_unsigned_small by lia.
    repeat split.
  - rewrite Z.min_r by lia.
    rewrite min_value_wide, max_value_wide, max_value_unsigned_wide by lia.
    repeat split.
Qed.

Lemma half_range_bounds (w : Z) :
  0 < w -> 1 <= 2 ^ (Z.min w 64 - 1) <= 2 ^ 63.
Proof. intros Hw. apply pow2_le. lia. Qed.

Lemma pow2_double (n : Z) : 0 < n -> 2 ^ n = 2 * 2 ^ (n - 1).
Proof.
  intros Hn. replace n with (Z.succ (n - 1)) at 1 by lia.
  apply Z.pow_succ_r. lia.
Qed.

(** X1: for every positive width the least value is the negated greatest
    value minus one, the asymmetry of two's complement, and the greatest
    unsigned value is the greatest signed value minus the least one. *)
Theorem min_value_mirrors_max_value (w : Z) :
  0 < w ->
  exists lo hi umax,
    min_value w = Ret lo /\ max_value w = Ret hi /\
    max_value_unsigned w = Ret umax /\
    lo = - hi - 1 /\
    (w <= 64 -> umax = hi - lo).
Proof.
  intros Hw. destruct (bounds_closed_form w Hw) as (Hlo & Hhi & Hu).
  exists (- 2 ^ (Z.min w 64 - 1)), (2 ^ (Z.min w 64 - 1) - 1),
    (2 ^ Z.min w 64 - 1).
  split; [exact Hlo |]. split; [exact Hhi |]. split; [exact Hu |].
  split; [lia |].
  intros Hle. rewrite Z.min_l by lia. rewrite (pow2_double w Hw). lia.
Qed.

Lemma min_value_mirrors_max_value_witness :
  exists lo hi umax,
    min_value 16 = Ret lo /\ max_value 16 = Ret hi /\
    max_value_unsigned 16 = Ret umax /\
    lo = - hi - 1 /\
    (16 <= 64 -> umax = hi - lo).
Proof. apply (min_value_mirrors_max_value 16). lia. Defined.

(** X2: a wider type has a wider range: for positive widths [a <= b] the
    least value of [b] is at most that of [a], and the greatest signed and
    unsigned values of [a] are at most those of [b]. *)
Theorem bounds_monotone_in_width (a b : Z) :
  0 < a <= b ->
  exists lo_a hi_a umax_a lo_b hi_b umax_b,
    min_value a = Ret lo_a /\ max_value a = Ret hi_a /\
    max_value_unsigned a = Ret umax_a /\
    min_value b = Ret lo_b /\ max_value b = Ret hi_b /\
    max_value_unsigned b = Ret umax_b /\
    lo_b <= lo_a /\ hi_a <= hi_b /\ umax_a <= umax_b.
Proof.
  intros Hab.
  destruct (bounds_closed_form a ltac:(lia)) as (Hla & Hha & Hua).
  destruct (bounds_closed_form b ltac:(lia)) as (Hlb & Hhb & Hub).
  exists (- 2 ^ (Z.min a 64 - 1)), (2 ^ (Z.min a 64 - 1) - 1),
    (2 ^ Z.min a 64 - 1), (- 2 ^ (Z.min b 64 - 1)),
    (2 ^ (Z.min b 64 - 1) - 1), (2 ^ Z.min b 64 - 1).
  repeat (split; [assumption |]). split; [| split].
  - assert (2 ^ (Z.min a 64 - 1) <= 2 ^ (Z.min b 64 - 1))
      by (apply Z.pow_le_mono_r; lia). lia.
  - assert (2 ^ (Z.min a 64 - 1) <= 2 ^ (Z.min b 64 - 1))
      by (apply Z.pow_le_mono_r; lia). lia.
  - assert (2 ^ Z.min a 64 <= 2 ^ Z.min b 64)
      by (apply Z.pow_le_mono_r; lia). lia.
Qed.

Lemma bounds_monotone_in_width_witness :
  exists lo_a hi_a umax_a lo_b hi_b umax_b,
    min_value 16 = Ret lo_a /\ max_value 16 = Ret hi_a /\
    max_value_unsigned 16 = Ret umax_a /\
    min_value 32 = Ret lo_b /\ max_value 32 = Ret hi_b /\
    max_value_unsigned 32 = Ret umax_b /\
    lo_b <= lo_a /\ hi_a <= hi_b /\ umax_a <= umax_b.
Proof. apply (bounds_monotone_in_width 16 32). lia. Defined.



(** ** The range queries by value *)

Local Abbreviation signed_query w value :=
  (lo <- min_value w ;;
   if value >=? lo then hi <- max_value w ;; Ret (value <=? hi)
   else Ret false).

Local Abbreviation unsigned_query w value :=
  (m <- max_value w ;; Ret (value <=? Int.to_u64 m)).

Lemma signed_query_value (w value : Z) :
  0 < w ->
  signed_query w value =
  Ret ((- 2 ^ (Z.min w 64 - 1) <=? value) &&
       (value <=? 2 ^ (Z.min w 64 - 1) - 1)).
Proof.
  intros Hw. destruct (bounds_closed_form w Hw) as (-> & -> & _).
  cbn [bind]. rewrite Z.geb_leb.
  destruct (- 2 ^ (Z.min w 64 - 1) <=? value); reflexivity.
Qed.

Lemma unsigned_query_value (w value : Z) :
  0 < w ->
  unsigned_query w value = Ret (value <=? 2 ^ (Z.min w 64 - 1) - 1).
Proof.
  intros Hw. destruct (bounds_closed_form w Hw) as (_ & Hhi & _).
  destruct (max_value_as_unsigned _ _ Hhi) as (E & _).
  rewrite Hhi. cbn [bind]. rewrite E. reflexivity.
Qed.

Lemma queries_assert (w value : Z) :
  w <= 0 ->
  signed_query w value = AssertFail /\ unsigned_query w value = AssertFail.
Proof.
  intros Hw. destruct (bounds_nonpositive_width w Hw) as (-> & -> & _).
  split; reflexivity.
Qed.

Lemma signed_query_outcome (w value : Z) :
  (signed_query w value = AssertFail <-> w <= 0) /\
  (forall what, signed_query w value <> Throw what).
Proof.
  destruct (Z_le_gt_dec w 0) as [Hle | Hgt].
  - rewrite (proj1 (queries_assert w value Hle)).
    split; [tauto | discriminate].
  - rewrite signed_query_value by lia.
    split; [split; [discriminate | lia] | discriminate].
Qed.

Lemma unsigned_query_outcome (w value : Z) :
  (unsigned_query w value = AssertFail <-> w <= 0) /\
  (forall what, unsigned_query w value <> Throw what).
Proof.
  destruct (Z_le_gt_dec w 0) as [Hle | Hgt].
  - rewrite (proj2 (queries_assert w value Hle)).
    split; [tauto | discriminate].
  - rewrite unsigned_query_value by lia.
    split; [split; [discriminate | lia] | discriminate].
Qed.

(** X4: a range query fails its assertion exactly when the width it reads is
    zero (not positive), whatever the value asked about, and no query ever
    throws. *)
Theorem queries_fail_exactly_at_zero_width (p : Platform) (value : Z) :
  ((isIntValue p value = AssertFail <-> int_bit p <= 0) /\
   (isIntValue_u p value = AssertFail <-> int_bit p <= 0) /\
   (isLongValue p value = AssertFail <-> long_bit p <= 0) /\
   (isLongValue_u p value = AssertFail <-> long_bit p <= 0) /\
   (isLongLongValue_u p value = AssertFail <-> long_long_bit p <= 0)) /\
  (forall what,
     isIntValue p value <> Throw what /\
     isIntValue_u p value <> Throw what /\
     isLongValue p value <> Throw what /\
     isLongValue_u p value <> Throw what /\
     isLongLongValue_u p value <> Throw what).
Proof.
  unfold isIntValue, isIntValue_u, isLongValue, isLongValue_u,
    isLongLongValue_u.
  split.
  - split; [apply signed_query_outcome |].
    split; [apply unsigned_query_outcome |].
    split; [apply signed_query_outcome |].
    split; apply unsigned_query_outcome.
  - intros what.
    split; [apply signed_query_outcome |].
    split; [apply unsigned_query_outcome |].
    split; [apply signed_query_outcome |].
    split; apply unsigned_query_outcome.
Qed.

Lemma queries_fail_exactly_at_zero_width_witness :
  isIntValue lp64 5 <> AssertFail.
Proof.
  intros E.
  apply (proj1 (queries_fail_exactly_at_zero_width lp64 5)) in E.
  cbn in E. lia.
Defined.

(** X5: [isLongValue] on a signed value returns true exactly when the value
    lies between [min_value (long_bit p)] and [max_value (long_bit p)], and
    returns whenever the width is positive. *)
Theorem isLongValue_signed_range (p : Platform) (value : Z) :
  (isLongValue p value = Ret true <->
   exists lo hi,
     min_value (long_bit p) = Ret lo /\ max_value (long_bit p) = Ret hi /\
     lo <= value <= hi) /\
  (0 < long_bit p -> exists r, isLongValue p value = Ret r).
Proof.
  unfold isLongValue. split.
  - apply signed_query_true.
  - apply signed_query_returns.
Qed.

Lemma isLongValue_signed_range_witness :
  exists r, isLongValue lp64 (-7) = Ret r.
Proof.
  apply (proj2 (isLongValue_signed_range lp64 (-7))). reflexivity.
Defined.

Lemma queries_agree_nonnegative (w value : Z) :
  0 <= value -> signed_query w value = unsigned_query w value.
Proof.
  intros Hv. destruct (Z_le_gt_dec w 0) as [Hle | Hgt].
  - destruct (queries_assert w value Hle) as (-> & ->). reflexivity.
  - rewrite signed_query_value, unsigned_query_value by lia.
    pose proof (half_range_bounds w ltac:(lia)).
    destruct (Z.leb_spec (- 2 ^ (Z.min w 64 - 1)) value); [reflexivity | lia].
Qed.

(** X6: on a value that is not negative the signed and the unsigned overload
    of [isIntValue] give the same outcome, and so do the two of
    [isLongValue]. *)
Theorem overloads_agree_on_nonnegative (p : Platform) (value : Z) :
  0 <= value ->
  isIntValue p value = isIntValue_u p value /\
  isLongValue p value = isLongValue_u p value.
Proof.
  intros Hv. unfold isIntValue, isIntValue_u, isLongValue, isLongValue_u.
  split; apply queries_agree_nonnegative; exact Hv.
Qed.

Lemma overloads_agree_on_nonnegative_witness :
  isIntValue lp64 4294967296 = isIntValue_u lp64 4294967296 /\
  isLongValue lp64 4294967296 = isLongValue_u lp64 4294967296.
Proof. apply overloads_agree_on_nonnegative. lia. Defined.

Lemma unsigned_query_above_llong_max (w value : Z) :
  0 < w -> Int.LLONG_MAX < value -> unsigned_query w value = Ret false.
Proof.
  intros Hw Hv. rewrite unsigned_query_value by exact Hw.
  pose proof (half_range_bounds w Hw). unfold Int.LLONG_MAX in Hv.
  destruct (Z.leb_spec value (2 ^ (Z.min w 64 - 1) - 1)); [lia | reflexivity].
Qed.

Lemma negative_as_unsigned (x : Z) :
  Int.is_s64 x -> x < 0 -> Int.LLONG_MAX < Int.to_u64 x.
Proof.
  unfold Int.is_s64, Int.LLONG_MIN, Int.LLONG_MAX, Int.to_u64.
  intros Hx Hneg.
  replace x with (x + 2 ^ 64 + (-1) * 2 ^ 64) by lia.
  rewrite Z.mod_add by lia. rewrite Z.mod_small; lia.
Qed.

(** X7: the unsigned overloads reject every value above the greatest
    [long long], whatever the width; so a negative [long long] handed to
    [isLongLongValue], which has the unsigned overload only and receives it
    converted to [unsigned long long], is rejected, and so it is by the
    unsigned [isIntValue] and [isLongValue]. *)
Theorem unsigned_queries_reject_negative (p : Platform) :
  (forall value, Int.LLONG_MAX < value ->
     (0 < int_bit p -> isIntValue_u p value = Ret false) /\
     (0 < long_bit p -> isLongValue_u p value = Ret false) /\
     (0 < long_long_bit p -> isLongLongValue_u p value = Ret false)) /\
  (forall x, Int.is_s64 x -> x < 0 ->
     (0 < int_bit p -> isIntValue_u p (Int.to_u64 x) = Ret false) /\
     (0 < long_bit p -> isLongValue_u p (Int.to_u64 x) = Ret false) /\
     (0 < long_long_bit p ->
      isLongLongValue_u p (Int.to_u64 x) = Ret false)).
Proof.
  unfold isIntValue_u, isLongValue_u, isLongLongValue_u.
  split.
  - intros value Hv.
    repeat split; intros Hw; apply unsigned_query_above_llong_max; assumption.
  - intros x Hx Hneg. pose proof (negative_as_unsigned x Hx Hneg) as Hv.
    repeat split; intros Hw; apply unsigned_query_above_llong_max; assumption.
Qed.

Lemma unsigned_queries_reject_negative_witness :
  isLongLongValue_u lp64 9223372036854775808 = Ret false /\
  isLongLongValue_u lp64 (Int.to_u64 (-1)) = Ret false.
Proof.
  destruct (unsigned_queries_reject_negative lp64) as (Hbig & Hneg).
  split.
  - apply (Hbig 9223372036854775808); [unfold Int.LLONG_MAX; lia | cbn; lia].
  - apply (Hneg (-1));
      [unfold Int.is_s64, Int.LLONG_MIN, Int.LLONG_MAX; lia | lia | cbn; lia].
Defined.

(** X8: with 64 bits or more in an int (or a long) the signed overload
    accepts every [long long]; the unsigned overloads at such a width still
    accept the values up to the greatest [long long] only, which leaves out
    the upper half of [unsigned long long]. *)
Theorem wide_width_queries (p : Platform) (value : Z) :
  (64 <= int_bit p -> Int.is_s64 value -> isIntValue p value = Ret true) /\
  (64 <= long_bit p -> Int.is_s64 value -> isLongValue p value = Ret true) /\
  (64 <= int_bit p ->
   isIntValue_u p value = Ret (value <=? Int.LLONG_MAX)) /\
  (64 <= long_bit p ->
   isLongValue_u p value = Ret (value <=? Int.LLONG_MAX)) /\
  (64 <= long_long_bit p ->
   isLongLongValue_u p value = Ret (value <=? Int.LLONG_MAX)).
Proof.
  assert (S : forall w, 64 <= w -> Int.is_s64 value ->
                signed_query w value = Ret true).
  { intros w Hw Hv. rewrite signed_query_value by lia.
    rewrite Z.min_r by lia.
    unfold Int.is_s64, Int.LLONG_MIN, Int.LLONG_MAX in Hv.
    change (64 - 1) with 63. f_equal. apply andb_true_iff.
    rewrite !Z.leb_le. lia. }
  assert (U : forall w, 64 <= w ->
                unsigned_query w value = Ret (value <=? Int.LLONG_MAX)).
  { intros w Hw. rewrite unsigned_query_value by lia.
    rewrite Z.min_r by lia. reflexivity. }
  unfold isIntValue, isIntValue_u, isLongValue, isLongValue_u,
    isLongLongValue_u.
  repeat split; intros; (apply S || apply U); assumption.
Qed.

Lemma wide_width_queries_witness :
  isLongValue lp64 (-9223372036854775808) = Ret true /\
  isLongLongValue_u lp64 9223372036854775808 =
  Ret (9223372036854775808 <=? Int.LLONG_MAX).
Proof.
  split.
  - apply (proj1 (proj2 (wide_width_queries lp64 (-9223372036854775808)))).
    + cbn. lia.
    + unfold Int.is_s64, Int.LLONG_MIN, Int.LLONG_MAX. lia.
  - apply (proj2 (proj2 (proj2 (proj2
      (wide_width_queries lp64 9223372036854775808))))).
    cbn. lia.
Defined.

Lemma signed_query_monotone (a b value : Z) :
  a <= b -> signed_query a value = Ret true -> signed_query b value = Ret true.
Proof.
  intros Hab Ha.
  assert (Hpos : 0 < a).
  { destruct (Z_le_gt_dec a 0) as [Hle | Hgt]; [| lia].
    rewrite (proj1 (queries_assert a value Hle)) in Ha. discriminate. }
  rewrite signed_query_value in Ha by lia. injection Ha as Ha.
  apply andb_true_iff in Ha. rewrite !Z.leb_le in Ha.
  rewrite signed_query_value by lia. f_equal.
  apply andb_true_iff. rewrite !Z.leb_le.
  assert (2 ^ (Z.min a 64 - 1) <= 2 ^ (Z.min b 64 - 1))
    by (apply Z.pow_le_mono_r; lia).
  lia.
Qed.

Lemma unsigned_query_monotone (a b value : Z) :
  a <= b ->
  unsigned_query a value = Ret true -> unsigned_query b value = Ret true.
Proof.
  intros Hab Ha.
  assert (Hpos : 0 < a).
  { destruct (Z_le_gt_dec a 0) as [Hle | Hgt]; [| lia].
    rewrite (proj2 (queries_assert a value Hle)) in Ha. discriminate. }
  rewrite unsigned_query_value in Ha by lia. injection Ha as Ha.
  rewrite Z.leb_le in Ha.
  rewrite unsigned_query_value by lia. f_equal. rewrite Z.leb_le.
  assert (2 ^ (Z.min a 64 - 1) <= 2 ^ (Z.min b 64 - 1))
    by (apply Z.pow_le_mono_r; lia).
  lia.
Qed.

(** X9: when a long has at least as many bits as an int, every value
    [isIntValue] accepts is accepted by [isLongValue], for the signed and for
    the unsigned overload; when a long long has at least as many bits as a
    long, every unsigned value [isLongValue] accepts is accepted by
    [isLongLongValue]. *)
Theorem int_values_are_long_values (p : Platform) (value : Z) :
  (int_bit p <= long_bit p ->
   (isIntValue p value = Ret true -> isLongValue p value = Ret true) /\
   (isIntValue_u p value = Ret true -> isLongValue_u p value = Ret true)) /\
  (long_bit p <= long_long_bit p ->
   isLongValue_u p value = Ret true -> isLongLongValue_u p value = Ret true).
Proof.
  unfold isIntValue, isIntValue_u, isLongValue, isLongValue_u,
    isLongLongValue_u.
  split; [intros H; split |].
  - apply signed_query_monotone. exact H.
  - apply unsigned_query_monotone. exact H.
  - apply unsigned_query_monotone.
Qed.

Lemma int_values_are_long_values_witness :
  isLongValue lp64 (-2147483648) = Ret true /\
  isLongLongValue_u lp64 2147483647 = Ret true.
Proof.
  split.
  - apply (proj1 (proj1 (int_values_are_long_values lp64 (-2147483648))
                    ltac:(cbn; lia))).
    reflexivity.
  - apply (proj2 (int_values_are_long_values lp64 2147483647)).
    + cbn. lia.
    + reflexivity.
Defined.

(** ** Labels of the type tag *)

Lemma of_u8_some (v : Z) (t : Type_) :
  PlatformType.of_u8 v = Some t -> v = PlatformType.to_u8 t.
Proof.
  destruct v as [| q | q]; cbn; try discriminate.
  - intros [= <-]. reflexivity.
  - do 3 (try destruct q as [q | q |]); cbn; try discriminate;
      intros [= <-]; reflexivity.
Qed.

Lemma toString_of_enumerator (v : Z) (s : string) :
  toString_of v = Ret s ->
  exists t, v = PlatformType.to_u8 t /\
            toString_of (PlatformType.to_u8 t) = Ret s.
Proof.
  intros H. unfold toString_of in H.
  destruct (PlatformType.of_u8 v) as [t |] eqn:E; [| discriminate].
  apply of_u8_some in E. exists t. split; [exact E |].
  unfold toString_of. rewrite of_u8_to_u8. exact H.
Qed.

(** X10: [toString] tells the type tags apart: two descriptors for which it
    returns the same label store the same type, and the label it returns is
    never the empty string. *)
Theorem toString_injective (p q : Platform) (s : string) :
  toString p = Ret s -> toString q = Ret s ->
  type p = type q /\ s <> "".
Proof.
  unfold toString. intros Hp Hq.
  destruct (toString_of_enumerator _ _ Hp) as (tp & -> & Hp').
  destruct (toString_of_enumerator _ _ Hq) as (tq & -> & Hq').
  destruct tp; injection Hp' as <-;
    (split; [| discriminate]);
    destruct tq; (reflexivity || discriminate).
Qed.

Lemma toString_injective_witness :
  type (with_type lp64 4) = type (with_type (with_char_bit lp64 16) 4) /\
  "win64" <> "".
Proof.
  apply (toString_injective (with_type lp64 4)
           (with_type (with_char_bit lp64 16) 4) "win64"); reflexivity.
Defined.

(** X11: [isWindows] holds exactly when [toString] returns one of the labels
    "win32A", "win32W" and "win64". *)
Theorem isWindows_iff_windows_label (p : Platform) :
  isWindows p = true <->
  toString p = Ret "win32A" \/ toString p = Ret "win32W" \/
  toString p = Ret "win64".
Proof.
  unfold isWindows, toString. rewrite !orb_true_iff, !Z.eqb_eq. split.
  - intros [[-> | ->] | ->]; auto.
  - intros [H | [H | H]];
      destruct (toString_of_enumerator _ _ H) as (t & -> & Ht);
      destruct t; try discriminate; auto.
Qed.

(** ** The limits of char *)

Lemma bounds_assert_iff (w : Z) :
  (min_value w = AssertFail <-> w <= 0) /\
  (max_value w = AssertFail <-> w <= 0).
Proof.
  destruct (Z_le_gt_dec w 0) as [Hle | Hgt].
  - destruct (bounds_nonpositive_width w Hle) as (-> & -> & _). tauto.
  - destruct (bounds_closed_form w ltac:(lia)) as (-> & -> & _).
    split; (split; [discriminate | lia]).
Qed.

(** X12: for a char of 1 to 63 bits the three char limits are those of two's
    complement: the least signed value is the negated greatest one minus one,
    and the greatest unsigned value is twice the greatest signed one plus
    one, the value [max_value_unsigned] gives for the width.  For a char of 64
    to 254 bits [unsignedCharMax] is no more than [signedCharMax]: both are
    the greatest [long long]. *)
Theorem char_limits_consistent (p : Platform) :
  (1 <= char_bit p <= 63 ->
   exists lo hi umax,
     signedCharMin p = Ret lo /\ signedCharMax p = Ret hi /\
     unsignedCharMax p = Ret umax /\
     lo = - hi - 1 /\ umax = 2 * hi + 1 /\
     max_value_unsigned (char_bit p) = Ret umax) /\
  (64 <= char_bit p <= 254 ->
   unsignedCharMax p = signedCharMax p /\
   signedCharMax p = Ret Int.LLONG_MAX /\
   signedCharMin p = Ret Int.LLONG_MIN).
Proof.
  unfold signedCharMin, signedCharMax, unsignedCharMax. split; intros H.
  - rewrite to_u8_small by (unfold Int.is_u8; lia).
    destruct (bounds_closed_form (char_bit p) ltac:(lia)) as (-> & -> & ->).
    destruct (bounds_closed_form (char_bit p + 1) ltac:(lia)) as (_ & -> & _).
    rewrite !Z.min_l by lia.
    replace (char_bit p + 1 - 1) with (char_bit p) by lia.
    exists (- 2 ^ (char_bit p - 1)), (2 ^ (char_bit p - 1) - 1),
      (2 ^ char_bit p - 1).
    repeat (split; [reflexivity |]).
    rewrite (pow2_double (char_bit p)) by lia.
    split; [lia |]. split; [lia | reflexivity].
  - rewrite to_u8_small by (unfold Int.is_u8; lia).
    rewrite min_value_wide by lia. rewrite !max_value_wide by lia.
    repeat split.
Qed.

Lemma char_limits_consistent_witness :
  (exists lo hi umax,
     signedCharMin lp64 = Ret lo /\ signedCharMax lp64 = Ret hi /\
     unsignedCharMax lp64 = Ret umax /\
     lo = - hi - 1 /\ umax = 2 * hi + 1 /\
     max_value_unsigned (char_bit lp64) = Ret umax) /\
  unsignedCharMax (with_char_bit lp64 100) =
  signedCharMax (with_char_bit lp64 100).
Proof.
  split.
  - apply (proj1 (char_limits_consistent lp64)). cbn. lia.
  - apply (proj2 (char_limits_consistent (with_char_bit lp64 100))).
    cbn. lia.
Defined.

(** X13: on a descriptor whose widths fit their 8-bit fields,
    [signedCharMax] and [signedCharMin] fail the assertion exactly when char
    has 0 bits, and [unsignedCharMax] exactly when it has 255; with 0 bits
    [unsignedCharMax] returns 0, the greatest value of one signed bit.  None
    of the three throws. *)
Theorem char_limits_assert_edges (p : Platform) :
  widths_fit p ->
  (signedCharMax p = AssertFail <-> char_bit p = 0) /\
  (signedCharMin p = AssertFail <-> char_bit p = 0) /\
  (unsignedCharMax p = AssertFail <-> char_bit p = 255) /\
  (char_bit p = 0 -> unsignedCharMax p = Ret 0) /\
  (forall what,
     signedCharMax p <> Throw what /\ signedCharMin p <> Throw what /\
     unsignedCharMax p <> Throw what).
Proof.
  intros [Hc _ _ _ _]. unfold Int.is_u8 in Hc.
  unfold signedCharMax, signedCharMin, unsignedCharMax.
  destruct (bounds_assert_iff (char_bit p)) as (Hmin & Hmax).
  split; [rewrite Hmax; lia |]. split; [rewrite Hmin; lia |].
  assert (N : forall w what,
            min_value w <> Throw what /\ max_value w <> Throw what).
  { intros w what. unfold min_value, max_value, assert.
    destruct (w >? 0); cbn [bind]; [| split; discriminate].
    destruct (w >=? 64); split; discriminate. }
  split; [| split].
  - destruct (Z.eq_dec (char_bit p) 255) as [E | NE].
    + rewrite E. split; [reflexivity | intros _; reflexivity].
    + rewrite to_u8_small by (unfold Int.is_u8; lia).
      rewrite (proj2 (bounds_assert_iff (char_bit p + 1))). lia.
  - intros ->. reflexivity.
  - intros what. split; [apply N |]. split; apply N.
Qed.

Lemma lp64_widths_fit : widths_fit lp64.
Proof. constructor; unfold Int.is_u8; cbn; lia. Defined.

Lemma char_limits_assert_edges_witness :
  (unsignedCharMax lp64 = AssertFail <-> char_bit lp64 = 255) /\
  signedCharMax lp64 <> Throw "unknown platform".
Proof.
  destruct (char_limits_assert_edges lp64 lp64_widths_fit)
    as (_ & _ & H255 & _ & Hthrow).
  split; [exact H255 | apply Hthrow].
Defined.

(** ** Bounds against queries *)

Lemma signed_query_in (w value : Z) :
  0 < w ->
  - 2 ^ (Z.min w 64 - 1) <= value <= 2 ^ (Z.min w 64 - 1) - 1 ->
  signed_query w value = Ret true.
Proof.
  intros Hw Hv. rewrite signed_query_value by exact Hw. f_equal.
  apply andb_true_iff. rewrite !Z.leb_le. exact Hv.
Qed.

Lemma signed_query_out (w value : Z) :
  0 < w ->
  value < - 2 ^ (Z.min w 64 - 1) \/ 2 ^ (Z.min w 64 - 1) - 1 < value ->
  signed_query w value = Ret false.
Proof.
  intros Hw Hv. rewrite signed_query_value by exact Hw. f_equal.
  apply andb_false_iff. rewrite !Z.leb_gt. exact Hv.
Qed.

(** X14: the range [isIntValue] accepts is tight.  For a positive width it
    accepts [min_value] and [max_value] of the width, and below 64 bits it
    rejects the values next to them; the unsigned overload accepts
    [max_value], rejects its successor and rejects [max_value_unsigned] of
    the width: what it answers is whether the value fits a signed int. *)
Theorem isIntValue_range_is_tight (p : Platform) :
  0 < int_bit p ->
  exists lo hi umax,
    min_value (int_bit p) = Ret lo /\ max_value (int_bit p) = Ret hi /\
    max_value_unsigned (int_bit p) = Ret umax /\
    isIntValue p lo = Ret true /\ isIntValue p hi = Ret true /\
    (int_bit p < 64 ->
     isIntValue p (lo - 1) = Ret false /\ isIntValue p (hi + 1) = Ret false) /\
    isIntValue_u p hi = Ret true /\
    isIntValue_u p (hi + 1) = Ret false /\
    isIntValue_u p umax = Ret false.
Proof.
  intros Hw. unfold isIntValue, isIntValue_u.
  destruct (bounds_closed_form (int_bit p) Hw) as (Hlo & Hhi & Hu).
  pose proof (half_range_bounds (int_bit p) Hw) as B.
  assert (D : 2 ^ Z.min (int_bit p) 64 = 2 * 2 ^ (Z.min (int_bit p) 64 - 1))
    by (apply pow2_double; lia).
  exists (- 2 ^ (Z.min (int_bit p) 64 - 1)),
    (2 ^ (Z.min (int_bit p) 64 - 1) - 1), (2 ^ Z.min (int_bit p) 64 - 1).
  repeat (split; [assumption |]).
  split; [apply signed_query_in; lia |].
  split; [apply signed_query_in; lia |].
  split; [intros _; split; apply signed_query_out; lia |].
  rewrite !unsigned_query_value by exact Hw.
  repeat split; f_equal; (apply Z.leb_le || apply Z.leb_gt); lia.
Qed.

Lemma isIntValue_range_is_tight_witness :
  exists lo hi umax,
    min_value (int_bit lp64) = Ret lo /\ max_value (int_bit lp64) = Ret hi /\
    max_value_unsigned (int_bit lp64) = Ret umax /\
    isIntValue lp64 lo = Ret true /\ isIntValue lp64 hi = Ret true /\
    (int_bit lp64 < 64 ->
     isIntValue lp64 (lo - 1) = Ret false /\
     isIntValue lp64 (hi + 1) = Ret false) /\
    isIntValue_u lp64 hi = Ret true /\
    isIntValue_u lp64 (hi + 1) = Ret false /\
    isIntValue_u lp64 umax = Ret false.
Proof. apply (isIntValue_range_is_tight lp64). cbn. lia. Defined.

(** X15: the limits of char are int values.  When a char has no more bits
    than an int, [isIntValue] accepts [signedCharMin] and [signedCharMax];
    when it has fewer, both overloads accept [unsignedCharMax] as well. *)
Theorem char_limits_are_int_values (p : Platform) :
  widths_fit p ->
  (0 < char_bit p <= int_bit p ->
   exists lo hi,
     signedCharMin p = Ret lo /\ signedCharMax p = Ret hi /\
     isIntValue p lo = Ret true /\ isIntValue p hi = Ret true) /\
  (char_bit p < int_bit p ->
   exists umax,
     unsignedCharMax p = Ret umax /\
     isIntValue p umax = Ret true /\ isIntValue_u p umax = Ret true).
Proof.
  intros [Hc _ Hi _ _]. unfold Int.is_u8 in Hc, Hi.
  unfold signedCharMin, signedCharMax, unsignedCharMax, isIntValue,
    isIntValue_u.
  split; intros H.
  - destruct (bounds_closed_form (char_bit p) ltac:(lia)) as (-> & -> & _).
    pose proof (half_range_bounds (char_bit p) ltac:(lia)).
    assert (2 ^ (Z.min (char_bit p) 64 - 1) <=
            2 ^ (Z.min (int_bit p) 64 - 1))
      by (apply Z.pow_le_mono_r; lia).
    do 2 eexists. split; [reflexivity |]. split; [reflexivity |].
    split; apply signed_query_in; lia.
  - rewrite to_u8_small by (unfold Int.is_u8; lia).
    destruct (bounds_closed_form (char_bit p + 1) ltac:(lia)) as (_ & -> & _).
    pose proof (half_range_bounds (char_bit p + 1) ltac:(lia)).
    assert (2 ^ (Z.min (char_bit p + 1) 64 - 1) <=
            2 ^ (Z.min (int_bit p) 64 - 1))
      by (apply Z.pow_le_mono_r; lia).
    eexists. split; [reflexivity |]. split.
    + apply signed_query_in; lia.
    + rewrite unsigned_query_value by lia. f_equal. apply Z.leb_le. lia.
Qed.

Lemma char_limits_are_int_values_witness :
  (exists lo hi,
     signedCharMin lp64 = Ret lo /\ signedCharMax lp64 = Ret hi /\
     isIntValue lp64 lo = Ret true /\ isIntValue lp64 hi = Ret true) /\
  (exists umax,
     unsignedCharMax lp64 = Ret umax /\
     isIntValue lp64 umax = Ret true /\ isIntValue_u lp64 umax = Ret true).
Proof.
  destruct (char_limits_are_int_values lp64 lp64_widths_fit) as (Hs & Hu).
  split; [apply Hs | apply Hu]; cbn; lia.
Defined.
